(** * The HTTP gateway of the ledger node ([src/apps.ts])

    A shallow embedding of the three classes of [apps.ts] -- [App],
    [PublicApp] and [PrivateApp] -- together with the few built-ins of the
    host language the file relies on ([String.prototype.split],
    [Array.prototype.filter], [Number], [Promise]).

    The Express server is an external object of type [any]; it is modelled
    by the ordered log of the method calls the gateway makes on it
    ([use], [get], [post], [options], [set], [listen]), by the events it
    emits after [listen] (['listening'], ['error']) and, as a parameter, by
    the ports [listen] refuses at once.  The collaborators (logger, message
    broker, handlers) are opaque objects known by reference only. *)

From Stdlib Require Import List String Ascii ZArith NArith Bool Lia.
From Stdlib Require Decimal DecimalString DecimalN.
Import ListNotations.

Local Open Scope string_scope.
Local Open Scope list_scope.

(* ================================================================== *)
(** ** Host-language built-ins *)
(* ================================================================== *)

Module Js.

(** Strings are sequences of code units; the model keeps the code units
    U+0000..U+00FF, one [ascii] each. *)

Definition LF : ascii := ascii_of_nat 10.

(** [s.split(sep)] for a separator of one code unit: the segments between
    the occurrences of [sep], in order; a string without [sep] (the empty
    string too) gives one segment. *)
Fixpoint split (sep : ascii) (s : string) : list string :=
  match s with
  | EmptyString => [EmptyString]
  | String c rest =>
      if Ascii.eqb c sep then EmptyString :: split sep rest
      else match split sep rest with
           | [] => [String c EmptyString]
           | seg :: segs => String c seg :: segs
           end
  end.

(** [sep] placed between the segments: [segs.join(sep)]. *)
Fixpoint join (sep : ascii) (segs : list string) : string :=
  match segs with
  | [] => EmptyString
  | [seg] => seg
  | seg :: more => (seg ++ String sep (join sep more))%string
  end.

(** Does the code unit [c] occur in [s]? *)
Fixpoint occurs (c : ascii) (s : string) : bool :=
  match s with
  | EmptyString => false
  | String d rest => Ascii.eqb d c || occurs c rest
  end.

(** Truthiness of a string: the empty string is the only falsy one. *)
Definition truthy (s : string) : bool := Nat.ltb 0 (String.length s).

(** *** Numbers

    A Number is NaN, an infinity, or the double nearest to a decimal
    mathematical value; the rounding to a double is kept symbolic:
    [RoundMV neg m e] stands for the Number value of [(-1)^neg * m * 10^e]. *)
Inductive JsNumber : Type :=
| NaN
| Infinity (negative : bool)
| RoundMV (negative : bool) (m : N) (e10 : Z).

(** The values a port argument can have: [number | string]. *)
Inductive JsValue : Type :=
| VNum (n : JsNumber)
| VStr (s : string).

(** StrWhiteSpaceChar, restricted to the code units of the model: TAB, LF,
    VT, FF, CR, SP and NBSP. *)
Definition isStrWhiteSpaceChar (c : ascii) : bool :=
  let n := N_of_ascii c in
  ((9 <=? n) && (n <=? 13) || (n =? 32) || (n =? 160))%N.

Fixpoint trimStart (l : list ascii) : list ascii :=
  match l with
  | c :: rest => if isStrWhiteSpaceChar c then trimStart rest else l
  | [] => []
  end.

Definition trim (l : list ascii) : list ascii :=
  rev (trimStart (rev (trimStart l))).

Definition digitValue (radix : N) (c : ascii) : option N :=
  let n := N_of_ascii c in
  let v := if ((48 <=? n) && (n <=? 57))%N then Some (n - 48)%N
           else if ((97 <=? n) && (n <=? 102))%N then Some (n - 87)%N
           else if ((65 <=? n) && (n <=? 70))%N then Some (n - 55)%N
           else None in
  match v with
  | Some d => if (d <? radix)%N then Some d else None
  | None => None
  end.

(** The longest prefix of digits of [l] in the given radix: its value
    (continuing from [acc]), the number of digits read, and the rest. *)
Fixpoint digits (radix acc : N) (count : nat) (l : list ascii)
  : N * nat * list ascii :=
  match l with
  | c :: rest =>
      match digitValue radix c with
      | Some d => digits radix (acc * radix + d)%N (S count) rest
      | None => (acc, count, l)
      end
  | [] => (acc, count, [])
  end.

(** ExponentPart_opt followed by the end of the string. *)
Definition exponentPart (l : list ascii) : option Z :=
  match l with
  | [] => Some 0%Z
  | c :: rest =>
      if Ascii.eqb c "e"%char || Ascii.eqb c "E"%char then
        let '(negative, ds) :=
          match rest with
          | s :: ds' =>
              if Ascii.eqb s "-"%char then (true, ds')
              else if Ascii.eqb s "+"%char then (false, ds')
              else (false, rest)
          | [] => (false, rest)
          end in
        match digits 10 0 0 ds with
        | (v, S _, []) => Some (if negative then (- Z.of_N v)%Z else Z.of_N v)
        | _ => None
        end
      else None
  end.

(** StrUnsignedDecimalLiteral: [Infinity], or digits with an optional
    fraction and exponent; at least one digit before or after the dot. *)
Definition strUnsignedDecimalLiteral (negative : bool) (l : list ascii)
  : option JsNumber :=
  if list_eq_dec ascii_dec l (list_ascii_of_string "Infinity")
  then Some (Infinity negative)
  else
    let '(ip, ni, r1) := digits 10 0 0 l in
    let '(m, nf, r2) :=
      match r1 with
      | c :: r =>
          if Ascii.eqb c "."%char then digits 10 ip 0 r else (ip, 0, r1)
      | [] => (ip, 0, r1)
      end in
    match ni + nf with
    | 0 => None
    | S _ =>
        match exponentPart r2 with
        | Some e => Some (RoundMV negative m (e - Z.of_nat nf))
        | None => None
        end
    end.

(** NonDecimalIntegerLiteral: [0x], [0o] or [0b] and at least one digit. *)
Definition nonDecimalIntegerLiteral (l : list ascii) : option JsNumber :=
  match l with
  | z :: p :: ds =>
      if Ascii.eqb z "0"%char then
        let radix :=
          if Ascii.eqb p "x"%char || Ascii.eqb p "X"%char then Some 16%N
          else if Ascii.eqb p "o"%char || Ascii.eqb p "O"%char then Some 8%N
          else if Ascii.eqb p "b"%char || Ascii.eqb p "B"%char then Some 2%N
          else None in
        match radix with
        | Some r =>
            match digits r 0 0 ds with
            | (v, S _, []) => Some (RoundMV false v 0)
            | _ => None
            end
        | None => None
        end
      else None
  | _ => None
  end.

(** StrNumericLiteral: [None] when the text is not one. *)
Definition strNumericLiteral (l : list ascii) : option JsNumber :=
  match nonDecimalIntegerLiteral l with
  | Some n => Some n
  | None =>
      match l with
      | c :: rest =>
          if Ascii.eqb c "-"%char then strUnsignedDecimalLiteral true rest
          else if Ascii.eqb c "+"%char then strUnsignedDecimalLiteral false rest
          else strUnsignedDecimalLiteral false l
      | [] => None
      end
  end.

(** StringNumericLiteral: white space around an optional StrNumericLiteral;
    white space alone is the number 0. *)
Definition stringNumericLiteral (s : string) : option JsNumber :=
  match trim (list_ascii_of_string s) with
  | [] => Some (RoundMV false 0 0)
  | l => strNumericLiteral l
  end.

(** StringToNumber: NaN when the string is not a StringNumericLiteral. *)
Definition StringToNumber (s : string) : JsNumber :=
  match stringNumericLiteral s with
  | Some n => n
  | None => NaN
  end.

(** [Number(value)] on [number | string]. *)
Definition Number (value : JsValue) : JsNumber :=
  match value with
  | VNum n => n
  | VStr s => StringToNumber s
  end.

(** A promise is pending until it is settled, once. *)
Inductive Promise (E : Type) : Type :=
| Pending
| Fulfilled
| Rejected (reason : E).
Arguments Pending {E}.
Arguments Fulfilled {E}.
Arguments Rejected {E} reason.

Definition resolve {E} (p : Promise E) : Promise E :=
  match p with Pending => Fulfilled | _ => p end.

Definition reject {E} (reason : E) (p : Promise E) : Promise E :=
  match p with Pending => Rejected reason | _ => p end.

End Js.

(* ================================================================== *)
(** ** Data model of the gateway *)
(* ================================================================== *)

(** *** Collaborators, known by reference *)

Record LoggerInstance := { logger_ref : nat }.
Record WalletHandler := { walletHandler_ref : nat }.
Record TokenHandler := { tokenHandler_ref : nat }.
Record PeerHandler := { peerHandler_ref : nat }.
Record TransactionHandler := { transactionHandler_ref : nat }.
Record BlockHandler := { blockHandler_ref : nat }.
Record MessageBroker := { messageBroker_ref : nat }.

(** What a route binding can be given when it is built. *)
Inductive Dependency : Type :=
| DepWalletHandler (h : WalletHandler)
| DepTokenHandler (h : TokenHandler)
| DepPeerHandler (h : PeerHandler)
| DepTransactionHandler (h : TransactionHandler)
| DepBlockHandler (h : BlockHandler)
| DepMessageBroker (b : MessageBroker).

(** The calls a logger receives. *)
Inductive Level : Type := info | error.

Record LoggerCall := { target : LoggerInstance; level : Level; text : string }.

(** *** Errors

    An [Error] has a message and possibly a stack; [OrbError] is the
    subclass declared in [message_broker/errors], whose instances carry
    [httpStatusCode]. *)
Inductive ErrorClass : Type :=
| OrbError (httpStatusCode : Z)
| OtherError.

Record JsError := { message : string; stack : option string; class : ErrorClass }.

(** What a call can end in: a value, or an exception: the [TypeError] of a
    call on [undefined], the error of a header set after the headers were
    sent, the [RangeError] of a status code that cannot be written. *)
Inductive Exception : Type :=
| TypeError
| ERR_HTTP_HEADERS_SENT
| ERR_HTTP_INVALID_STATUS_CODE.

Inductive Completion (A : Type) : Type :=
| Normal (a : A)
| Throw (e : Exception).
Arguments Normal {A} a.
Arguments Throw {A} e.

(** *** Requests and responses *)

(** The JSON bodies of this layer: objects whose members are strings. *)
Definition JsonObject := list (string * string).

Inductive Method : Type := GET | HEAD | OPTIONS | PUT | PATCH | POST | DELETE.

Record Request := { req_method : Method; req_url : string }.

(** A response: the status set so far and the body sent, if any; once a
    body has been sent the headers are sent too. *)
Record Response := { statusCode : Z; sent : option JsonObject }.

(** *** CORS options (the fields of [cors.CorsOptions] the gateway sets) *)
Record CorsOptions := {
  allowedHeaders : list string;
  credentials : bool;
  methods : string;
  origin : string;
  preflightContinue : bool
}.

(** *** Middleware and the server *)

(** The stream handed to morgan: an object whose [write] closes over the
    constructor's [logger]. *)
Record StreamOptions := { stream_logger : LoggerInstance }.

Inductive ControllerModule : Type := privateApiController | publicApiController.

(** The request handlers the gateway installs.  [controller m f deps] is the
    closure returned by [m.f(deps...)]; [errorArrow] is the arrow function
    [(error, req, res, next) => this.handleErrors(error, req, res, next)]. *)
Inductive Middleware : Type :=
| compression
| morgan (format : string) (stream : StreamOptions)
| bodyParser_json
| bodyParser_urlencoded (extended : bool)
| expressValidator
| cors (o : CorsOptions)
| controller (m : ControllerModule) (f : string) (deps : list Dependency)
| errorArrow.

(** One call on the Express server object. *)
Inductive ServerCall : Type :=
| server_use (m : Middleware)
| server_get (path : string) (h : Middleware)
| server_post (path : string) (h : Middleware)
| server_options (path : string) (h : Middleware)
| server_set (setting : string) (value : Js.JsValue)
| server_listen (port : Js.JsValue) (bind : string).

(** The server: the calls made on it, oldest first. *)
Definition Server := list ServerCall.

(** [express()]: a server nothing has been called on yet. *)
Definition express : Server := [].

(** The gateway instance. *)
Record App := {
  logger : option LoggerInstance;
  server : Server;
  port : option Js.JsNumber;
  options : CorsOptions
}.

(** [this.server.<call>]: the call is appended to the server's log. *)
Definition call (c : ServerCall) (this : App) : App :=
  {| logger := logger this;
     server := server this ++ [c];
     port := port this;
     options := options this |}.

(** [this.port = n]. *)
Definition set_port (n : Js.JsNumber) (this : App) : App :=
  {| logger := logger this;
     server := server this;
     port := Some n;
     options := options this |}.

Notation "this |> f" := (f this) (at level 65, left associativity, only parsing).

(* ================================================================== *)
(** ** class App *)
(* ================================================================== *)

(** The field initialiser of [options]. *)
Definition App_options : CorsOptions :=
  {| allowedHeaders :=
       ["Origin"; "X-Requested-With"; "Content-Type"; "Accept"; "X-Access-Token"];
     credentials := true;
     methods := "GET,HEAD,OPTIONS,PUT,PATCH,POST,DELETE";
     origin := "*";
     preflightContinue := false |}.

(** [logStream.write(message)]: the calls the logger receives. *)
Definition write (stream : StreamOptions) (message : string) : list LoggerCall :=
  map (fun msg => {| target := stream_logger stream; level := info; text := msg |})
      (filter (fun msg => Nat.ltb 0 (String.length msg)) (Js.split Js.LF message)).

(** [constructor(logger)]; an absent logger is [None]. *)
Definition App_new (logger : option LoggerInstance) : App :=
  {| logger := logger; server := express; port := None; options := App_options |}
  |> call (server_use compression)
  |> (fun this =>
        match logger with
        | Some lg =>
            let logStream := {| stream_logger := lg |} in
            this |> call (server_use (morgan "combined" logStream))
        | None => this
        end)
  |> call (server_use bodyParser_json)
  |> call (server_use (bodyParser_urlencoded true))
  |> call (server_use expressValidator)
  |> (fun this => this |> call (server_use (cors (options this)))).

(** The effects of [handleErrors]: the calls on the logger and the
    response under construction; a call on an absent object throws. *)
Record HandlerState := { logged : list LoggerCall; response : Response }.

Definition Handler (A : Type) : Type := HandlerState -> Completion (A * HandlerState).

Definition ret {A} (a : A) : Handler A := fun s => Normal (a, s).

Definition bind {A B} (m : Handler A) (k : A -> Handler B) : Handler B :=
  fun s => match m s with
           | Normal (a, s') => k a s'
           | Throw e => Throw e
           end.

Notation "m ;; k" := (bind m (fun _ => k)) (at level 61, right associativity).

(** [lg.error(msg)], where [lg] may be [undefined]. *)
Definition logger_error (lg : option LoggerInstance) (msg : string) : Handler unit :=
  fun s =>
    match lg with
    | Some l =>
        Normal (tt, {| logged := logged s ++ [{| target := l; level := error; text := msg |}];
                       response := response s |})
    | None => Throw TypeError
    end.

(** [res.status(code)]. *)
Definition res_status (code : Z) : Handler unit :=
  fun s =>
    Normal (tt, {| logged := logged s;
                   response := {| statusCode := code; sent := sent (response s) |} |}).

(** The status line is written with the status code as a 32-bit integer
    ([statusCode |= 0]), which has to lie in 100..999. *)
Definition ToInt32 (n : Z) : Z := ((n + 2 ^ 31) mod 2 ^ 32 - 2 ^ 31)%Z.

Definition valid_status (code : Z) : bool :=
  ((100 <=? ToInt32 code) && (ToInt32 code <=? 999))%Z.

(** [res.json(body)]: sets the content type, then sends the body with the
    status set before.  It throws when the response has been sent already
    (a header can no longer be set), and when the status code cannot be
    written.  What the library makes of the body on the wire is not part of
    the model. *)
Definition res_json (body : JsonObject) : Handler unit :=
  fun s =>
    match sent (response s) with
    | Some _ => Throw ERR_HTTP_HEADERS_SENT
    | None =>
        if valid_status (statusCode (response s))
        then Normal (tt, {| logged := logged s;
                            response := {| statusCode := statusCode (response s);
                                           sent := Some body |} |})
        else Throw ERR_HTTP_INVALID_STATUS_CODE
    end.

(** [handleErrors(error, req, res, next)]; [res] is the response of the
    state the handler runs in, [next] is not used. *)
Definition handleErrors (this : App) (err : JsError) (req : Request) : Handler unit :=
  logger_error (logger this) (message err) ;;
  match stack err with
  | Some st =>
      if Js.truthy st then logger_error (logger this) st else ret tt
  | None => ret tt
  end ;;
  match class err with
  | OrbError httpStatusCode =>
      res_status httpStatusCode ;;
      res_json [("error", message err)]
  | OtherError =>
      res_status 500 ;;
      res_json [("error", message err)]
  end.

(** The callback given to [listen]: settles the promise of [start]. *)
Definition listen_callback (err : option JsError)
    (w : App * Js.Promise JsError) : App * Js.Promise JsError :=
  match err with
  | Some e => (fst w, Js.reject e (snd w))
  | None => (fst w, Js.resolve (snd w))
  end.

(** What the server emits once [listen] has returned: ['listening'] when it
    is bound, ['error'] with the bind error when it could not bind. *)
Inductive ServerEvent : Type :=
| listening
| error_event (e : JsError).

Definition is_listening (ev : ServerEvent) : bool :=
  match ev with listening => true | error_event _ => false end.

(** The server subscribes the callback given to [listen] to ['listening']
    and calls it without an argument; [start] subscribes nothing to
    ['error'], so an ['error'] event reaches neither the callback nor the
    promise. *)
Definition emit (ev : ServerEvent)
    (w : App * Js.Promise JsError) : App * Js.Promise JsError :=
  match ev with
  | listening => listen_callback None w
  | error_event _ => w
  end.

(** The events of the server, one after the other. *)
Definition emits (evs : list ServerEvent)
    (w : App * Js.Promise JsError) : App * Js.Promise JsError :=
  fold_left (fun w ev => emit ev w) evs w.

(** A server that takes every port: [listen] never throws. *)
Definition accepts_every_port (port : Js.JsValue) (bind : string) : option JsError :=
  None.

(** The server is an external object.  Of [listen] the gateway sees whether
    the call throws at once (a port the server refuses, such as one that is
    out of range) or returns; which ports are refused is the server's
    affair, and every result below holds for every such server. *)
Section Server.

Variable listen_throws : Js.JsValue -> string -> option JsError.

(** [start(port, bind)]: the gateway after the executor has run, and the
    promise returned.  An exception thrown in the executor rejects the
    promise. *)
Definition start (port : Js.JsValue) (bind : string) (this : App)
  : App * Js.Promise JsError :=
  let this := this |> set_port (Js.Number port) in
  let this := this |> call (server_set "port" port) in
  let this := this |> call (server_listen port bind) in
  (this, match listen_throws port bind with
         | Some thrown => Js.reject thrown Js.Pending
         | None => Js.Pending
         end).

(* ================================================================== *)
(** ** class PublicApp, class PrivateApp *)
(* ================================================================== *)

Definition PublicApp_new (logger : option LoggerInstance)
    (messageBroker : MessageBroker) (peerHandler : PeerHandler) : App :=
  let mb := DepMessageBroker messageBroker in
  let ph := DepPeerHandler peerHandler in
  App_new logger
  |> call (server_get "/api/status" (controller publicApiController "getStatus" []))
  |> call (server_get "/api/peers" (controller publicApiController "getPeers" [ph]))
  |> call (server_post "/api/peers" (controller publicApiController "becomePeer" [ph]))
  |> call (server_post "/api/tokens" (controller publicApiController "newToken" [mb]))
  |> call (server_post "/api/transactions"
             (controller publicApiController "newTransactionPartial" [mb]))
  |> call (server_post "/api/transactions/sign"
             (controller publicApiController "newTransactionFull" [mb]))
  |> call (server_post "/api/blocks" (controller publicApiController "blockMined" [mb]))
  |> call (server_get "/api/blocks" (controller publicApiController "getBlockHashes" [mb]))
  |> call (server_get "/api/blockheight"
             (controller publicApiController "getBlockHeight" [mb]))
  |> call (server_get "/api/blocks/:blockHash"
             (controller publicApiController "getBlockByHash" [mb]))
  |> call (server_use errorArrow)
  |> (fun this => this |> call (server_options "*" (cors (options this)))).

Definition PrivateApp_new (logger : option LoggerInstance)
    (messageBroker : MessageBroker) : App :=
  let mb := DepMessageBroker messageBroker in
  App_new logger
  |> call (server_get "/api/stop" (controller privateApiController "stop" []))
  |> call (server_get "/api/status" (controller privateApiController "getStatus" []))
  |> call (server_post "/api/wallet" (controller privateApiController "createWallet" [mb]))
  |> call (server_get "/api/wallet/balances/:tokenHash"
             (controller privateApiController "getBalances" [mb]))
  |> call (server_get "/api/wallet/balances/:betaPublicKey/:tokenHash"
             (controller privateApiController "getBilateralBalances" [mb]))
  |> call (server_post "/api/tokens" (controller privateApiController "createToken" [mb]))
  |> call (server_get "/api/tokens" (controller privateApiController "listTokens" [mb]))
  |> call (server_post "/api/transactions"
             (controller privateApiController "createPartialTransaction" [mb]))
  |> call (server_get "/api/transactions"
             (controller privateApiController "listPartialTransaction" [mb]))
  |> call (server_post "/api/transactions/sign"
             (controller privateApiController "createFullTransaction" [mb]))
  |> call (server_get "/api/options"
             (controller privateApiController "listExercisableOptions" [mb]))
  |> call (server_post "/api/options/exercise"
             (controller privateApiController "exerciseOption" [mb]))
  |> call (server_use errorArrow)
  |> (fun this => this |> call (server_options "*" (cors (options this)))).

(* ================================================================== *)
(** ** Views of the server log *)
(* ================================================================== *)

(** The calls that register a handler; [set] and [listen] do not. *)
Definition is_registration (c : ServerCall) : bool :=
  match c with
  | server_use _ | server_get _ _ | server_post _ _ | server_options _ _ => true
  | server_set _ _ | server_listen _ _ => false
  end.

(** The middleware list of the server, in registration order. *)
Definition middleware_list (s : Server) : list ServerCall := filter is_registration s.

(** A resource route: a [get] or [post] registration. *)
Definition is_resource_route (c : ServerCall) : bool :=
  match c with
  | server_get _ _ | server_post _ _ => true
  | _ => false
  end.

(** The route bindings of the server: method, path and what the controller
    closure was built with. *)
Definition binding (c : ServerCall) : option (Method * string * list Dependency) :=
  match c with
  | server_get path (controller _ _ deps) => Some (GET, path, deps)
  | server_post path (controller _ _ deps) => Some (POST, path, deps)
  | _ => None
  end.

Fixpoint bindings (s : Server) : list (Method * string * list Dependency) :=
  match s with
  | [] => []
  | c :: rest =>
      match binding c with
      | Some b => b :: bindings rest
      | None => bindings rest
      end
  end.

(** The [get] and [post] registrations of the server with the very handler
    each was given, in registration order. *)
Definition route (c : ServerCall) : option (Method * string * Middleware) :=
  match c with
  | server_get path h => Some (GET, path, h)
  | server_post path h => Some (POST, path, h)
  | _ => None
  end.

Fixpoint routes (s : Server) : list (Method * string * Middleware) :=
  match s with
  | [] => []
  | c :: rest =>
      match route c with
      | Some r => r :: routes rest
      | None => routes rest
      end
  end.

(** The CORS options of every [cors(...)] handler on the server. *)
Fixpoint cors_policies (s : Server) : list CorsOptions :=
  match s with
  | [] => []
  | (server_use (cors o) | server_get _ (cors o) | server_post _ (cors o)
     | server_options _ (cors o)) :: rest => o :: cors_policies rest
  | _ :: rest => cors_policies rest
  end.

(** The value of a setting: what the last [set] of it stored. *)
Fixpoint setting (name : string) (s : Server) : option Js.JsValue :=
  match s with
  | [] => None
  | c :: rest =>
      match setting name rest with
      | Some v => Some v
      | None =>
          match c with
          | server_set k v => if String.eqb k name then Some v else None
          | _ => None
          end
      end
  end.

(** How many times [listen] was called. *)
Definition listen_calls (s : Server) : list (Js.JsValue * string) :=
  flat_map (fun c => match c with server_listen p b => [(p, b)] | _ => [] end) s.

(** The error translator sits after every resource route, the preflight
    responder after the error translator, at the end of the list. *)
Definition error_handling_last (l : list ServerCall) : Prop :=
  exists j k,
    nth_error l j = Some (server_use errorArrow) /\
    nth_error l k = Some (server_options "*" (cors App_options)) /\
    j < k /\ S k = List.length l /\
    forall i c, nth_error l i = Some c -> is_resource_route c = true -> i < j.

(* ================================================================== *)
(** ** The specification's tables *)
(* ================================================================== *)

(** The column "Depends on" of the public route table. *)
Inductive DependsOn : Type := none | Peer_handler | Message_Broker.

(** The public route table, row by row as the specification lists it. *)
Definition spec_public_route_table : list (Method * string * DependsOn) :=
  [ (GET, "/api/status", none);
    (GET, "/api/peers", Peer_handler);
    (POST, "/api/peers", Peer_handler);
    (POST, "/api/tokens", Message_Broker);
    (POST, "/api/transactions", Message_Broker);
    (POST, "/api/transactions/sign", Message_Broker);
    (POST, "/api/blocks", Message_Broker);
    (GET, "/api/blocks", Message_Broker);
    (GET, "/api/blockheight", Message_Broker);
    (GET, "/api/blocks/:blockHash", Message_Broker) ].

(** The column "Operation" of the public route table. *)
Inductive Operation : Type :=
| node_status
| list_known_peers
| register_as_peer
| announce_new_token
| submit_partial_transaction
| submit_fully_signed_transaction
| announce_mined_block
| list_block_hashes
| current_chain_height
| fetch_block_by_hash.

(** The public route table with its four columns: method, path, operation,
    depends on. *)
Definition spec_public_routes : list (Method * string * Operation * DependsOn) :=
  [ (GET, "/api/status", node_status, none);
    (GET, "/api/peers", list_known_peers, Peer_handler);
    (POST, "/api/peers", register_as_peer, Peer_handler);
    (POST, "/api/tokens", announce_new_token, Message_Broker);
    (POST, "/api/transactions", submit_partial_transaction, Message_Broker);
    (POST, "/api/transactions/sign", submit_fully_signed_transaction, Message_Broker);
    (POST, "/api/blocks", announce_mined_block, Message_Broker);
    (GET, "/api/blocks", list_block_hashes, Message_Broker);
    (GET, "/api/blockheight", current_chain_height, Message_Broker);
    (GET, "/api/blocks/:blockHash", fetch_block_by_hash, Message_Broker) ].

(** Modelled from the spec: the module [controllers/public_api] is not
    among the sources, only the names of its exports are.  Each operation
    of the table is taken to be what the export named after it builds the
    handler of. *)
Definition publicApi_export (op : Operation) : string :=
  match op with
  | node_status => "getStatus"
  | list_known_peers => "getPeers"
  | register_as_peer => "becomePeer"
  | announce_new_token => "newToken"
  | submit_partial_transaction => "newTransactionPartial"
  | submit_fully_signed_transaction => "newTransactionFull"
  | announce_mined_block => "blockMined"
  | list_block_hashes => "getBlockHashes"
  | current_chain_height => "getBlockHeight"
  | fetch_block_by_hash => "getBlockByHash"
  end.

(** What a row's dependency stands for once the surface is given its
    collaborators. *)
Definition declared (messageBroker : MessageBroker) (peerHandler : PeerHandler)
    (row : Method * string * DependsOn) : Method * string * list Dependency :=
  let '(m, path, d) := row in
  (m, path,
   match d with
   | none => []
   | Peer_handler => [DepPeerHandler peerHandler]
   | Message_Broker => [DepMessageBroker messageBroker]
   end).

(** The route a row of the four-column table asks for: method, path, the
    closure of the operation's export of the public controller module, and
    what that closure is built with. *)
Definition declared_route (messageBroker : MessageBroker) (peerHandler : PeerHandler)
    (row : Method * string * Operation * DependsOn)
  : Method * string * Middleware :=
  let '(m, path, op, d) := row in
  (m, path,
   controller publicApiController (publicApi_export op)
     match d with
     | none => []
     | Peer_handler => [DepPeerHandler peerHandler]
     | Message_Broker => [DepMessageBroker messageBroker]
     end).

(** The pipeline of the Gateway Base in the specification's order, steps
    (1) to (6); step (2) only with a logger. *)
Definition spec_pipeline (logger : option LoggerInstance) : list Middleware :=
  [compression]
  ++ match logger with
     | Some lg => [morgan "combined" {| stream_logger := lg |}]
     | None => []
     end
  ++ [bodyParser_json; bodyParser_urlencoded true; expressValidator; cors App_options].

(** The CORS policy in the specification's words. *)
Definition spec_allowed_headers : list string :=
  ["Origin"; "X-Requested-With"; "Content-Type"; "Accept"; "X-Access-Token"].

Definition spec_methods : list string :=
  ["GET"; "HEAD"; "OPTIONS"; "PUT"; "PATCH"; "POST"; "DELETE"].

Definition comma : ascii := ","%char.

(** What a private binding may be built with: nothing, or the message
    broker alone; nothing for the stop and status routes. *)
Definition private_injection_ok (messageBroker : MessageBroker)
    (b : Method * string * list Dependency) : bool :=
  let '(_, path, deps) := b in
  match deps with
  | [] => true
  | [DepMessageBroker mb] =>
      Nat.eqb (messageBroker_ref mb) (messageBroker_ref messageBroker)
      && negb (String.eqb path "/api/stop" || String.eqb path "/api/status")
  | _ => false
  end.

(* ================================================================== *)
(** ** Runs of calls, and further views *)
(* ================================================================== *)

(** The string without the occurrences of the code unit [c]. *)
Fixpoint without (c : ascii) (s : string) : string :=
  match s with
  | EmptyString => EmptyString
  | String d rest => if Ascii.eqb d c then without c rest else String d (without c rest)
  end.

(** Is every code unit of [s] the code unit [c]? *)
Fixpoint only (c : ascii) (s : string) : bool :=
  match s with
  | EmptyString => true
  | String d rest => Ascii.eqb d c && only c rest
  end.

(** The texts a logger received, one after the other. *)
Definition texts (calls : list LoggerCall) : string :=
  fold_right String.append EmptyString (map text calls).

(** One [info] call on the logger of a stream. *)
Definition info_call (stream : StreamOptions) (msg : string) : LoggerCall :=
  {| target := stream_logger stream; level := info; text := msg |}.

(** [start] called again and again, with the given ports and addresses. *)
Definition starts (ps : list (Js.JsValue * string)) (this : App) : App :=
  fold_left (fun a pb => fst (start (fst pb) (snd pb) a)) ps this.

(** The error-handling registrations: the arrows of four parameters. *)
Definition is_error_handler (c : ServerCall) : bool :=
  match c with
  | server_use errorArrow | server_get _ errorArrow | server_post _ errorArrow
  | server_options _ errorArrow => true
  | _ => false
  end.

(** The controller module and function a registration takes its closure
    from. *)
Definition controller_of (c : ServerCall) : option (ControllerModule * string) :=
  match c with
  | server_use (controller m f _) | server_get _ (controller m f _)
  | server_post _ (controller m f _) | server_options _ (controller m f _) => Some (m, f)
  | _ => None
  end.

Definition is_public (mf : ControllerModule * string) : bool :=
  match fst mf with publicApiController => true | privateApiController => false end.

(** Method and path of the bindings, in registration order. *)
Definition route_keys (s : Server) : list (Method * string) := map fst (bindings s).

(** Do two bindings differ in their path or in their method? *)
Definition key_differs (a b : Method * string) : bool :=
  negb (String.eqb (snd a) (snd b))
  || match fst a, fst b with
     | GET, GET | HEAD, HEAD | OPTIONS, OPTIONS | PUT, PUT | PATCH, PATCH
     | POST, POST | DELETE, DELETE => false
     | _, _ => true
     end.

(** The streams of the access loggers registered on the server. *)
Definition log_streams (s : Server) : list StreamOptions :=
  flat_map (fun c => match c with server_use (morgan _ stream) => [stream] | _ => [] end) s.

(** The number a decimal numeral stands for, read from the left; [acc] is
    the number read so far. *)
Fixpoint uint_value (d : Decimal.uint) (acc : N) : N :=
  match d with
  | Decimal.Nil => acc
  | Decimal.D0 l => uint_value l (acc * 10 + 0)
  | Decimal.D1 l => uint_value l (acc * 10 + 1)
  | Decimal.D2 l => uint_value l (acc * 10 + 2)
  | Decimal.D3 l => uint_value l (acc * 10 + 3)
  | Decimal.D4 l => uint_value l (acc * 10 + 4)
  | Decimal.D5 l => uint_value l (acc * 10 + 5)
  | Decimal.D6 l => uint_value l (acc * 10 + 6)
  | Decimal.D7 l => uint_value l (acc * 10 + 7)
  | Decimal.D8 l => uint_value l (acc * 10 + 8)
  | Decimal.D9 l => uint_value l (acc * 10 + 9)
  end%N.

(** The decimal numeral of a natural number, without leading zeros. *)
Definition decimal (n : N) : string :=
  DecimalString.NilEmpty.string_of_uint (N.to_uint n).

(* ================================================================== *)
(** ** Properties of the built-ins *)
(* ================================================================== *)

Section SplitFacts.

Variable sep : ascii.

Lemma split_cons (s : string) :
  exists seg segs, Js.split sep s = seg :: segs.
Proof.
  destruct s as [|c rest]; simpl.
  - eauto.
  - destruct (Ascii.eqb c sep); [eauto|].
    destruct (Js.split sep rest); eauto.
Qed.

(** Joining the segments with the separator gives the string back. *)
Lemma join_split (s : string) : Js.join sep (Js.split sep s) = s.
Proof.
  induction s as [|c rest IH]; [reflexivity|].
  simpl Js.split.
  destruct (split_cons rest) as (seg & segs & E).
  rewrite E in IH |- *.
  destruct (Ascii.eqb c sep) eqn:Ec.
  - apply Ascii.eqb_eq in Ec. subst c.
    change (Js.join sep (EmptyString :: seg :: segs))
      with (String sep (Js.join sep (seg :: segs))).
    now rewrite IH.
  - destruct segs as [|seg' segs].
    + simpl in IH |- *. now rewrite IH.
    + change (Js.join sep (String c seg :: seg' :: segs))
        with (String c (Js.join sep (seg :: seg' :: segs))).
      now rewrite IH.
Qed.

(** No segment contains the separator. *)
Lemma split_no_sep (s : string) :
  Forall (fun seg => Js.occurs sep seg = false) (Js.split sep s).
Proof.
  induction s as [|c rest IH]; simpl.
  - repeat constructor.
  - destruct (Ascii.eqb c sep) eqn:Ec.
    + constructor; [reflexivity | exact IH].
    + destruct (Js.split sep rest) as [|seg segs].
      * constructor; [simpl; now rewrite Ec | constructor].
      * inversion IH as [|? ? Hseg Hsegs]; subst.
        constructor; [simpl; now rewrite Ec, Hseg | exact Hsegs].
Qed.

End SplitFacts.

(** A numeric literal never denotes NaN: [StringToNumber] gives NaN exactly
    for the strings that are not numeric literals. *)
Lemma strUnsignedDecimalLiteral_not_NaN negative l n :
  Js.strUnsignedDecimalLiteral negative l = Some n -> n <> Js.NaN.
Proof.
  unfold Js.strUnsignedDecimalLiteral.
  destruct (list_eq_dec ascii_dec l _); [congruence|].
  destruct (Js.digits 10 0 0 l) as [[ip ni] r1].
  destruct (match r1 with
            | [] => (ip, 0, r1)
            | c :: r => if Ascii.eqb c "."%char then Js.digits 10 ip 0 r else (ip, 0, r1)
            end) as [[m nf] r2].
  destruct (ni + nf); [discriminate|].
  destruct (Js.exponentPart r2); congruence.
Qed.

Lemma nonDecimalIntegerLiteral_not_NaN l n :
  Js.nonDecimalIntegerLiteral l = Some n -> n <> Js.NaN.
Proof.
  unfold Js.nonDecimalIntegerLiteral.
  destruct l as [|z [|p ds]]; try discriminate.
  destruct (Ascii.eqb z "0"%char); [|discriminate].
  match goal with
  | |- match ?radix with _ => _ end = _ -> _ => destruct radix as [r|]
  end; [|discriminate].
  destruct (Js.digits r 0 0 ds) as [[v [|k]] [|? ?]]; congruence.
Qed.

Lemma StringToNumber_NaN_iff (s : string) :
  Js.StringToNumber s = Js.NaN <-> Js.stringNumericLiteral s = None.
Proof.
  unfold Js.StringToNumber.
  destruct (Js.stringNumericLiteral s) as [n|] eqn:E; [|tauto].
  split; [|discriminate]. intros ->. exfalso.
  revert E. unfold Js.stringNumericLiteral.
  destruct (Js.trim (list_ascii_of_string s)) as [|c rest]; [discriminate|].
  unfold Js.strNumericLiteral.
  destruct (Js.nonDecimalIntegerLiteral (c :: rest)) eqn:En.
  - intros E. injection E as ->. now apply nonDecimalIntegerLiteral_not_NaN in En.
  - destruct (Ascii.eqb c "-"%char); [|destruct (Ascii.eqb c "+"%char)];
      intros E; now apply strUnsignedDecimalLiteral_not_NaN in E.
Qed.

Example Number_of_port_strings :
  Js.Number (Js.VStr "8080") = Js.RoundMV false 8080 0 /\
  Js.Number (Js.VStr " 80 ") = Js.RoundMV false 80 0 /\
  Js.Number (Js.VStr "0x1F") = Js.RoundMV false 31 0 /\
  Js.Number (Js.VStr "1.5e3") = Js.RoundMV false 15 2 /\
  Js.Number (Js.VStr EmptyString) = Js.RoundMV false 0 0 /\
  Js.Number (Js.VStr "abc") = Js.NaN /\
  Js.Number (Js.VStr "80a") = Js.NaN /\
  Js.Number (Js.VStr "-0x10") = Js.NaN.
Proof. repeat split. Qed.

Example split_lines :
  Js.split Js.LF (String "a" (String Js.LF (String Js.LF (String "b" (String Js.LF EmptyString)))))
  = ["a"; EmptyString; "b"; EmptyString].
Proof. reflexivity. Qed.

Lemma length_zero_iff_empty (s : string) :
  Nat.ltb 0 (String.length s) = negb (String.eqb s EmptyString).
Proof. destruct s; reflexivity. Qed.

(* ================================================================== *)
(** ** The access-log stream *)
(* ================================================================== *)

(** C8 -- a message written to the access-log stream is cut at its newline
    characters (the segments, joined by newlines, are the message, and none
    contains a newline); the logger receives one [info] call for each
    segment that is not empty, in the order of the segments, and no call
    for an empty segment. *)
Theorem write_emits_nonempty_segments (stream : StreamOptions) (message : string) :
  let segments := Js.split Js.LF message in
  Js.join Js.LF segments = message /\
  Forall (fun seg => Js.occurs Js.LF seg = false) segments /\
  write stream message =
    map (fun seg => {| target := stream_logger stream; level := info; text := seg |})
        (filter (fun seg => negb (String.eqb seg EmptyString)) segments) /\
  Forall (fun c => level c = info /\ text c <> EmptyString) (write stream message).
Proof.
  cbv zeta. split; [apply join_split|]. split; [apply split_no_sep|].
  assert (E : write stream message =
    map (fun seg => {| target := stream_logger stream; level := info; text := seg |})
        (filter (fun seg => negb (String.eqb seg EmptyString)) (Js.split Js.LF message))).
  { unfold write. f_equal. apply filter_ext. intros seg.
    apply length_zero_iff_empty. }
  split; [exact E|].
  rewrite E. apply Forall_forall. intros c Hc.
  apply in_map_iff in Hc. destruct Hc as (seg & <- & Hseg).
  apply filter_In in Hseg. destruct Hseg as [_ Hne].
  split; [reflexivity|]. simpl. intros ->. discriminate.
Qed.

(* ================================================================== *)
(** ** The middleware pipeline and the route tables *)
(* ================================================================== *)

Lemma server_call (c : ServerCall) (this : App) :
  server (call c this) = server this ++ [c].
Proof. reflexivity. Qed.

(** The server of either surface starts with the calls of the base
    constructor. *)
Lemma PublicApp_extends_App logger messageBroker peerHandler :
  exists routes,
    server (PublicApp_new logger messageBroker peerHandler)
    = server (App_new logger) ++ routes.
Proof.
  unfold PublicApp_new. rewrite !server_call, <- !app_assoc. eauto.
Qed.

Lemma PrivateApp_extends_App logger messageBroker :
  exists routes,
    server (PrivateApp_new logger messageBroker) = server (App_new logger) ++ routes.
Proof.
  unfold PrivateApp_new. rewrite !server_call, <- !app_assoc. eauto.
Qed.

(** C5 -- the base constructor makes exactly the [use] calls of the
    pipeline, in the order compression, access logging, JSON body parsing,
    URL-encoded body parsing (extended), input validation, CORS with the
    fixed policy; access logging is there if and only if a logger is given;
    on both surfaces these calls come before every other call on the
    server, and none of them registers a route. *)
Theorem App_new_pipeline (logger : option LoggerInstance) :
  server (App_new logger) = map server_use (spec_pipeline logger) /\
  ((exists stream, In (server_use (morgan "combined" stream)) (server (App_new logger)))
   <-> logger <> None) /\
  existsb is_resource_route (server (App_new logger)) = false /\
  (forall messageBroker peerHandler, exists routes,
      server (PublicApp_new logger messageBroker peerHandler)
      = map server_use (spec_pipeline logger) ++ routes) /\
  (forall messageBroker, exists routes,
      server (PrivateApp_new logger messageBroker)
      = map server_use (spec_pipeline logger) ++ routes).
Proof.
  assert (E : server (App_new logger) = map server_use (spec_pipeline logger))
    by (destruct logger; reflexivity).
  split; [exact E|]. split; [|split; [|split]].
  - destruct logger as [lg|]; simpl; split.
    + discriminate.
    + intros _. exists {| stream_logger := lg |}. auto.
    + intros [stream H]. exfalso.
      repeat (destruct H as [H|H]; [discriminate H|]). exact H.
    + intros H. now contradiction H.
  - destruct logger; reflexivity.
  - intros mb ph. rewrite <- E. apply PublicApp_extends_App.
  - intros mb. rewrite <- E. apply PrivateApp_extends_App.
Qed.

(** In a list that ends with two entries that are not resource routes,
    every resource route stands before the first of the two. *)
Lemma routes_before_last_two (before : list ServerCall) (x y : ServerCall) :
  is_resource_route x = false ->
  is_resource_route y = false ->
  forall i c,
    nth_error (before ++ [x; y]) i = Some c ->
    is_resource_route c = true ->
    i < List.length before.
Proof.
  intros Hx Hy i c Hi Hc.
  destruct (Nat.lt_ge_cases i (List.length before)) as [Hlt|Hge]; [exact Hlt|].
  rewrite nth_error_app2 in Hi by exact Hge.
  destruct (i - List.length before) as [|[|n]]; simpl in Hi.
  - injection Hi as <-. congruence.
  - injection Hi as <-. congruence.
  - destruct n; discriminate.
Qed.

Lemma error_handling_last_intro (before : list ServerCall) :
  error_handling_last
    (before ++ [server_use errorArrow; server_options "*" (cors App_options)]).
Proof.
  exists (List.length before), (S (List.length before)).
  repeat split.
  - rewrite nth_error_app2 by apply Nat.le_refl. now rewrite Nat.sub_diag.
  - rewrite nth_error_app2 by apply Nat.le_succ_diag_r.
    now replace (S (List.length before) - List.length before) with 1 by lia.
  - apply Nat.lt_succ_diag_r.
  - rewrite length_app. simpl. lia.
  - apply routes_before_last_two; reflexivity.
Qed.

(** C2 -- on the public and on the private surface, in the middleware list
    in registration order, every resource route stands before the error
    translator, and the error translator before the [OPTIONS *] preflight
    responder, which is the last entry. *)
Theorem error_translator_then_preflight
    (logger : option LoggerInstance) (messageBroker : MessageBroker)
    (peerHandler : PeerHandler) :
  error_handling_last
    (middleware_list (server (PublicApp_new logger messageBroker peerHandler))) /\
  error_handling_last
    (middleware_list (server (PrivateApp_new logger messageBroker))).
Proof.
  split; destruct logger as [lg|];
    match goal with
    | |- error_handling_last ?l =>
        let l' := eval cbv in l in change l with l'
    end;
    match goal with
    | |- error_handling_last ?l =>
        let n := eval cbv in (List.length l - 2) in
        change l with (firstn n l ++ skipn n l); cbn [firstn skipn];
        apply error_handling_last_intro
    end.
Qed.

(** C4 -- the [get] and [post] registrations of the public surface are the
    ten rows of the specification's public route table, in its order: each
    row's method and path, bound to the closure of that row's operation in
    the public controller module, and built with what the row declares:
    nothing for the status route, the peer handler alone for the two
    [/api/peers] routes, the message broker alone for the token,
    transaction and block routes.  The surface has no other [get] or [post]
    registration. *)
Theorem PublicApp_route_table
    (logger : option LoggerInstance) (messageBroker : MessageBroker)
    (peerHandler : PeerHandler) :
  let s := server (PublicApp_new logger messageBroker peerHandler) in
  routes s = map (declared_route messageBroker peerHandler) spec_public_routes /\
  spec_public_route_table
  = map (fun row => let '(m, path, _, d) := row in (m, path, d)) spec_public_routes /\
  bindings s = map (declared messageBroker peerHandler) spec_public_route_table /\
  List.length (filter is_resource_route s) = 10.
Proof.
  destruct logger; repeat split.
Qed.

Lemma private_injection_ok_spec messageBroker m path deps :
  private_injection_ok messageBroker (m, path, deps) = true ->
  (deps = [] \/ deps = [DepMessageBroker messageBroker]) /\
  (path = "/api/stop" \/ path = "/api/status" -> deps = []).
Proof.
  unfold private_injection_ok.
  destruct deps as [|[| | | | |[r]] [|? ?]]; try discriminate; auto.
  destruct messageBroker as [r0]. simpl.
  intros H. apply andb_true_iff in H. destruct H as [Hr Hp].
  apply Nat.eqb_eq in Hr. subst r0.
  apply negb_true_iff, orb_false_iff in Hp. destruct Hp as [Hstop Hstatus].
  split; [now right|].
  intros [->| ->]; discriminate.
Qed.

(** C9 -- on the private surface every binding is built with nothing or
    with the message broker alone (no wallet, token, peer, transaction or
    block handler reaches a private route), the stop and status routes with
    nothing; the twelve routes are all of this kind. *)
Theorem PrivateApp_injects_broker_only
    (logger : option LoggerInstance) (messageBroker : MessageBroker) :
  let s := server (PrivateApp_new logger messageBroker) in
  Forall (fun b =>
            (snd b = [] \/ snd b = [DepMessageBroker messageBroker]) /\
            (snd (fst b) = "/api/stop" \/ snd (fst b) = "/api/status" -> snd b = []))
         (bindings s) /\
  List.length (bindings s) = 12 /\
  List.length (filter is_resource_route s) = 12.
Proof.
  cbv zeta. split; [|destruct logger; split; reflexivity].
  apply Forall_forall. intros [[m path] deps] Hb. simpl.
  apply private_injection_ok_spec with (m := m).
  revert Hb. generalize (m, path, deps). apply forallb_forall.
  destruct logger, messageBroker as [r]; simpl; rewrite !Nat.eqb_refl; reflexivity.
Qed.

(** C7 -- the CORS policy: allowed headers Origin, X-Requested-With,
    Content-Type, Accept, X-Access-Token; methods GET, HEAD, OPTIONS, PUT,
    PATCH, POST, DELETE (one comma-separated string); credentials allowed;
    origin [*]; preflight-continue false.  Both surfaces hold this policy
    in their [options] field and give it to both of their [cors] handlers
    (the one of the pipeline and the preflight responder). *)
Theorem cors_policy_fixed
    (logger : option LoggerInstance) (messageBroker : MessageBroker)
    (peerHandler : PeerHandler) :
  let public := PublicApp_new logger messageBroker peerHandler in
  let private := PrivateApp_new logger messageBroker in
  (allowedHeaders App_options = spec_allowed_headers /\
   Js.split comma (methods App_options) = spec_methods /\
   credentials App_options = true /\
   origin App_options = "*" /\
   preflightContinue App_options = false) /\
  options public = App_options /\
  options private = App_options /\
  cors_policies (server public) = [App_options; App_options] /\
  cors_policies (server private) = [App_options; App_options].
Proof.
  cbv zeta. split; [repeat split|].
  destruct logger; repeat split.
Qed.

(* ================================================================== *)
(** ** The error translator *)
(* ================================================================== *)

(** With a logger the translator logs the message, then the stack if there
    is one, sets the status of the error's class and hands the body
    [{ error: message }] to [res.json], which throws when the response has
    been sent already or when the status cannot be written. *)
Lemma handleErrors_with_logger (this : App) (lg : LoggerInstance)
    (err : JsError) (req : Request) (s : HandlerState) :
  logger this = Some lg ->
  handleErrors this err req s =
  match sent (response s) with
  | Some _ => Throw ERR_HTTP_HEADERS_SENT
  | None =>
      if valid_status (match class err with
                       | OrbError httpStatusCode => httpStatusCode
                       | OtherError => 500%Z
                       end)
      then
        Normal (tt,
          {| logged :=
               (logged s ++ [{| target := lg; level := error; text := message err |}])
               ++ match stack err with
                  | Some st =>
                      if Js.truthy st
                      then [{| target := lg; level := error; text := st |}]
                      else []
                  | None => []
                  end;
             response :=
               {| statusCode := match class err with
                                | OrbError httpStatusCode => httpStatusCode
                                | OtherError => 500%Z
                                end;
                  sent := Some [("error", message err)] |} |})
      else Throw ERR_HTTP_INVALID_STATUS_CODE
  end.
Proof.
  intros Hlg. unfold handleErrors, bind, logger_error, res_status, res_json, ret.
  rewrite Hlg.
  destruct (stack err) as [st|]; [destruct (Js.truthy st)|];
    destruct (class err) as [code|]; cbn [response sent statusCode logged];
    destruct (sent (response s)); try reflexivity;
    try (destruct (valid_status code)); rewrite ?app_nil_r; reflexivity.
Qed.

(** Without a logger the first statement of the translator throws. *)
Lemma handleErrors_without_logger (this : App)
    (err : JsError) (req : Request) (s : HandlerState) :
  logger this = None ->
  handleErrors this err req s = Throw TypeError.
Proof.
  intros Hlg. unfold handleErrors, bind, logger_error. now rewrite Hlg.
Qed.

(** C1 -- what the translator answers.  On a gateway built without a logger
    the translator throws before it writes anything, whatever the error.
    On a gateway that has a logger, and for a response that has not been
    sent yet, the response status is the error's [httpStatusCode] when the
    error is an [OrbError] and 500 otherwise, and the body is
    [{ error: message }], provided that status can be written; for a status
    that cannot, and for a response sent already, [res.json] throws. *)
Theorem handleErrors_response (this : App) (err : JsError) (req : Request)
    (s : HandlerState) :
  match logger this with
  | Some lg =>
      match sent (response s) with
      | Some _ => handleErrors this err req s = Throw ERR_HTTP_HEADERS_SENT
      | None =>
          if valid_status (match class err with
                           | OrbError httpStatusCode => httpStatusCode
                           | OtherError => 500%Z
                           end)
          then
            exists calls,
              handleErrors this err req s =
              Normal (tt,
                {| logged := logged s ++ calls;
                   response :=
                     {| statusCode := match class err with
                                      | OrbError httpStatusCode => httpStatusCode
                                      | OtherError => 500%Z
                                      end;
                        sent := Some [("error", message err)] |} |})
          else handleErrors this err req s = Throw ERR_HTTP_INVALID_STATUS_CODE
      end
  | None => handleErrors this err req s = Throw TypeError
  end.
Proof.
  destruct (logger this) as [lg|] eqn:Hlg.
  - rewrite (handleErrors_with_logger this lg err req s Hlg).
    destruct (sent (response s)); [reflexivity|].
    destruct (valid_status _); [|reflexivity].
    eexists. rewrite <- app_assoc. reflexivity.
  - now apply handleErrors_without_logger.
Qed.

(** The scenarios of the specification: a not-found error on the private
    surface, with a logger and without one. *)
Example handleErrors_token_not_found :
  let err := {| message := "token not found"; stack := None; class := OrbError 404 |} in
  let req := {| req_method := POST; req_url := "/api/wallet" |} in
  let s := {| logged := []; response := {| statusCode := 200; sent := None |} |} in
  let lg := {| logger_ref := 0 |} in
  let mb := {| messageBroker_ref := 1 |} in
  handleErrors (PrivateApp_new (Some lg) mb) err req s
  = Normal (tt, {| logged := [{| target := lg; level := error; text := "token not found" |}];
                   response := {| statusCode := 404;
                                  sent := Some [("error", "token not found")] |} |}) /\
  handleErrors (PrivateApp_new None mb) err req s = Throw TypeError.
Proof. split; reflexivity. Qed.

(** C6 -- the translator does throw: on either surface built without a
    logger, every call of it ends in a [TypeError], for every error,
    request and response. *)
Theorem handleErrors_throws_without_logger
    (messageBroker : MessageBroker) (peerHandler : PeerHandler)
    (err : JsError) (req : Request) (s : HandlerState) :
  handleErrors (PublicApp_new None messageBroker peerHandler) err req s
  = Throw TypeError /\
  handleErrors (PrivateApp_new None messageBroker) err req s = Throw TypeError.
Proof.
  split; apply handleErrors_without_logger; reflexivity.
Qed.

(* ================================================================== *)
(** ** Starting the server *)
(* ================================================================== *)

Lemma listen_calls_app (s t : Server) :
  listen_calls (s ++ t) = listen_calls s ++ listen_calls t.
Proof. apply flat_map_app. Qed.

Lemma setting_last (name : string) (v : Js.JsValue) (s : Server) :
  setting name (s ++ [server_set name v]) = Some v.
Proof.
  induction s as [|c rest IH]; simpl.
  - now rewrite String.eqb_refl.
  - now rewrite IH.
Qed.

Lemma setting_then_listen (name : string) (p : Js.JsValue) (b : string) (s : Server) :
  setting name (s ++ [server_listen p b]) = setting name s.
Proof.
  induction s as [|c rest IH]; simpl.
  - reflexivity.
  - now rewrite IH.
Qed.

Lemma settled_stays (evs : list ServerEvent) (w : App * Js.Promise JsError) :
  snd w <> Js.Pending -> emits evs w = w.
Proof.
  revert w. induction evs as [|ev evs IH]; intros [a q] Hq; [reflexivity|].
  cbn [emits fold_left]. fold (emits evs (emit ev (a, q))).
  assert (E : emit ev (a, q) = (a, q)).
  { destruct ev, q; simpl in *; congruence. }
  rewrite E. now apply IH.
Qed.

Lemma emits_cons ev evs w : emits (ev :: evs) w = emits evs (emit ev w).
Proof. reflexivity. Qed.

(** C3 -- the promise of [start].  When [listen] throws, the promise is
    rejected with what was thrown as soon as [start] returns, and no event
    changes that.  When [listen] returns, the promise is pending; the
    server's ['listening'] fulfils it; a bind error, which the server emits
    as ['error'], leaves it pending: it is not rejected with the bind
    error, and it is not settled at all.  [start] calls [listen] once with
    the port and address it was given, and no event makes it call [listen]
    again. *)
Theorem start_promise (p : Js.JsValue) (bind : string) (this : App) :
  let w := start p bind this in
  match listen_throws p bind with
  | Some thrown =>
      snd w = Js.Rejected thrown /\
      forall evs, snd (emits evs w) = Js.Rejected thrown
  | None =>
      snd w = Js.Pending /\
      snd (emit listening w) = Js.Fulfilled /\
      forall e, snd (emit (error_event e) w) = Js.Pending
  end /\
  listen_calls (server (fst w)) = listen_calls (server this) ++ [(p, bind)] /\
  (forall evs, fst (emits evs w) = fst w).
Proof.
  cbv zeta. split; [|split].
  - unfold start. cbn [snd]. destruct (listen_throws p bind) as [thrown|].
    + split; [reflexivity|]. intros evs. now rewrite settled_stays.
    + repeat split.
  - unfold start. simpl. rewrite !listen_calls_app. simpl.
    now rewrite app_nil_r.
  - intros evs. generalize (start p bind this).
    induction evs as [|ev evs IH]; intros w; [reflexivity|].
    rewrite emits_cons, IH. now destruct ev.
Qed.

(** C10 -- [start] assigns [Number(port)] to the port field and sets the
    server's ["port"] setting, and only then calls [listen]: the gateway
    after [start] is the gateway with these two changes and nothing else
    changed, on which [listen] has been called.  The logger and the options
    are as before, the earlier calls on the server are as before, and both
    changes are still there after the server has called back, with an error
    or without.  A string that is not a numeric literal leaves NaN in the
    port field. *)
Theorem start_sets_port_before_listen (p : Js.JsValue) (bind : string) (this : App) :
  let prepared :=
    {| logger := logger this;
       server := server this ++ [server_set "port" p];
       port := Some (Js.Number p);
       options := options this |} in
  let after := fst (start p bind this) in
  after = call (server_listen p bind) prepared /\
  (port after = Some (Js.Number p) /\ setting "port" (server after) = Some p) /\
  (forall r, fst (listen_callback r (start p bind this)) = after) /\
  (logger after = logger this /\ options after = options this /\
   server after = server this ++ [server_set "port" p; server_listen p bind]) /\
  (forall s, p = Js.VStr s -> Js.stringNumericLiteral s = None ->
             port after = Some Js.NaN).
Proof.
  cbv zeta. split; [reflexivity|]. split; [|split; [|split]].
  - split; [reflexivity|]. unfold start. simpl.
    now rewrite setting_then_listen, setting_last.
  - now intros [e|].
  - repeat split. unfold start. simpl. now rewrite <- app_assoc.
  - intros s -> Hs. unfold start. simpl. unfold Js.StringToNumber. now rewrite Hs.
Qed.

(* ================================================================== *)
(** ** More on the access-log stream *)
(* ================================================================== *)

Section SplitMore.

Variable sep : ascii.

(** Cutting at a separator cuts both sides. *)
Lemma split_app_sep (a b : string) :
  Js.split sep (a ++ String sep b) = Js.split sep a ++ Js.split sep b.
Proof.
  induction a as [|c a IH]; simpl.
  - now rewrite Ascii.eqb_refl.
  - destruct (Ascii.eqb c sep); [now rewrite IH|].
    rewrite IH. destruct (split_cons sep a) as (seg & segs & E).
    now rewrite E.
Qed.

(** A string without the separator is one segment. *)
Lemma split_without_sep (s : string) :
  Js.occurs sep s = false -> Js.split sep s = [s].
Proof.
  induction s as [|c s IH]; simpl; [reflexivity|].
  intros H. apply orb_false_iff in H. destruct H as [Hc Hs].
  now rewrite Hc, (IH Hs).
Qed.

(** Cutting what was joined gives the segments back. *)
Lemma split_join (seg : string) (segs : list string) :
  Forall (fun x => Js.occurs sep x = false) (seg :: segs) ->
  Js.split sep (Js.join sep (seg :: segs)) = seg :: segs.
Proof.
  revert seg. induction segs as [|next segs IH]; intros seg H.
  - inversion H; subst. now apply split_without_sep.
  - inversion H as [|? ? Hseg Hrest]; subst.
    change (Js.join sep (seg :: next :: segs))
      with (seg ++ String sep (Js.join sep (next :: segs)))%string.
    rewrite split_app_sep, (IH next Hrest).
    now rewrite (split_without_sep seg Hseg).
Qed.

(** The segments, one after the other, are the string without its
    separators. *)
Lemma split_flatten (s : string) :
  fold_right String.append EmptyString (Js.split sep s) = without sep s.
Proof.
  induction s as [|c s IH]; simpl; [reflexivity|].
  destruct (Ascii.eqb c sep); [exact IH|].
  destruct (split_cons sep s) as (seg & segs & E).
  rewrite E in IH |- *. simpl in IH |- *. now rewrite IH.
Qed.

(** All segments are empty exactly when the string is made of separators. *)
Lemma split_all_empty (s : string) :
  forallb (fun seg => negb (Nat.ltb 0 (String.length seg))) (Js.split sep s)
  = only sep s.
Proof.
  induction s as [|c s IH]; simpl; [reflexivity|].
  destruct (Ascii.eqb c sep); simpl; [exact IH|].
  now destruct (Js.split sep s).
Qed.

End SplitMore.

Lemma flatten_nonempty (l : list string) :
  fold_right String.append EmptyString
    (filter (fun msg => Nat.ltb 0 (String.length msg)) l)
  = fold_right String.append EmptyString l.
Proof.
  induction l as [|x l IH]; simpl; [reflexivity|].
  destruct x; simpl; now rewrite IH.
Qed.

Lemma filter_nil_forallb {A} (f : A -> bool) (l : list A) :
  filter f l = [] <-> forallb (fun x => negb (f x)) l = true.
Proof.
  induction l as [|x l IH]; simpl; [tauto|].
  destruct (f x); simpl; [split; discriminate | exact IH].
Qed.

Lemma write_as_info_calls (stream : StreamOptions) (message : string) :
  write stream message =
  map (info_call stream)
      (filter (fun msg => Nat.ltb 0 (String.length msg)) (Js.split Js.LF message)).
Proof. reflexivity. Qed.

(** X1 -- writing two messages with a newline between them is writing the
    first and then the second: the stream keeps no state across newlines. *)
Theorem write_newline_between (stream : StreamOptions) (a b : string) :
  write stream (a ++ String Js.LF b) = write stream a ++ write stream b.
Proof.
  rewrite !write_as_info_calls, split_app_sep, filter_app.
  apply map_app.
Qed.

(** X2 -- the texts the logger receives, put one after the other, are the
    message without its newline characters: the stream loses and adds
    nothing else. *)
Theorem write_keeps_text (stream : StreamOptions) (message : string) :
  texts (write stream message) = without Js.LF message.
Proof.
  unfold texts. rewrite write_as_info_calls, map_map. simpl.
  rewrite map_id, flatten_nonempty. apply split_flatten.
Qed.

(** X3 -- lines without newline characters, joined by newlines and written
    in one message, reach the logger one call each and unchanged, the empty
    lines left out. *)
Theorem write_joined_lines (stream : StreamOptions) (lines : list string) :
  Forall (fun line => Js.occurs Js.LF line = false) lines ->
  write stream (Js.join Js.LF lines) =
  map (info_call stream) (filter (fun line => negb (String.eqb line EmptyString)) lines).
Proof.
  intros H. rewrite write_as_info_calls. f_equal.
  rewrite (filter_ext _ _ length_zero_iff_empty).
  destruct lines as [|line lines]; [reflexivity|].
  now rewrite split_join.
Qed.

(** One access-log line as morgan writes it, with its newline at the end. *)
Lemma write_joined_lines_witness :
  write {| stream_logger := {| logger_ref := 0 |} |}
        (Js.join Js.LF ["GET /api/status 200"; EmptyString])
  = [info_call {| stream_logger := {| logger_ref := 0 |} |} "GET /api/status 200"].
Proof.
  apply (write_joined_lines {| stream_logger := {| logger_ref := 0 |} |}
           ["GET /api/status 200"; EmptyString]).
  repeat constructor.
Defined.

(** X4 -- the logger receives nothing exactly when the message is made of
    newline characters only (the empty message too). *)
Theorem write_silent_iff (stream : StreamOptions) (message : string) :
  write stream message = [] <-> only Js.LF message = true.
Proof.
  rewrite write_as_info_calls, <- split_all_empty.
  split.
  - intros H. apply map_eq_nil in H. now apply filter_nil_forallb in H.
  - intros H. apply filter_nil_forallb in H. now rewrite H.
Qed.

(* ================================================================== *)
(** ** More on the error translator *)
(* ================================================================== *)

(** X5 -- on a gateway with a logger, for a response that has not been sent
    yet and an error whose status can be written, the translator returns
    and adds one or two calls to what was logged before, all on the
    gateway's logger and at error level: first the message, then the stack,
    which is there exactly when the error has a stack that is not the empty
    string. *)
Theorem handleErrors_logs (this : App) (lg : LoggerInstance) (err : JsError)
    (req : Request) (s : HandlerState) :
  logger this = Some lg ->
  sent (response s) = None ->
  valid_status (match class err with
                | OrbError httpStatusCode => httpStatusCode
                | OtherError => 500%Z
                end) = true ->
  exists calls s',
    handleErrors this err req s = Normal (tt, s') /\
    logged s' = logged s ++ calls /\
    Forall (fun c => target c = lg /\ level c = error) calls /\
    nth_error calls 0 = Some {| target := lg; level := error; text := message err |} /\
    (forall st, nth_error calls 1 = Some {| target := lg; level := error; text := st |}
                <-> stack err = Some st /\ st <> EmptyString) /\
    List.length calls <= 2.
Proof.
  intros Hlg Hsent Hvalid.
  eexists. eexists.
  split; [rewrite (handleErrors_with_logger this lg err req s Hlg), Hsent, Hvalid;
          reflexivity|].
  cbn [logged]. split; [now rewrite <- app_assoc|].
  destruct (stack err) as [[|c st]|]; cbn.
  - split; [repeat constructor|]. split; [reflexivity|]. split; [|lia].
    intros st; split; [discriminate|]. intros [H Hne]. now injection H as <-.
  - split; [repeat constructor|]. split; [reflexivity|]. split; [|lia].
    intros st'; split.
    + intros H. injection H as <-. split; [reflexivity | discriminate].
    + intros [H _]. now injection H as <-.
  - split; [repeat constructor|]. split; [reflexivity|]. split; [|lia].
    intros st; split; [discriminate|]. intros [H _]. discriminate.
Qed.

Lemma handleErrors_logs_witness :
  exists calls s',
    handleErrors (PrivateApp_new (Some {| logger_ref := 0 |}) {| messageBroker_ref := 1 |})
      {| message := "boom"; stack := Some "Error: boom at wallet"; class := OtherError |}
      {| req_method := POST; req_url := "/api/wallet" |}
      {| logged := []; response := {| statusCode := 200; sent := None |} |}
    = Normal (tt, s') /\
    logged s' = [] ++ calls /\
    List.length calls <= 2.
Proof.
  destruct (handleErrors_logs
              (PrivateApp_new (Some {| logger_ref := 0 |}) {| messageBroker_ref := 1 |})
              {| logger_ref := 0 |}
              {| message := "boom"; stack := Some "Error: boom at wallet";
                 class := OtherError |}
              {| req_method := POST; req_url := "/api/wallet" |}
              {| logged := []; response := {| statusCode := 200; sent := None |} |}
              eq_refl eq_refl eq_refl)
    as (calls & s' & H & Hlog & _ & _ & _ & Hlen).
  exists calls, s'. auto.
Defined.

(** X6 -- for responses that have not been sent yet, the response the
    translator writes depends on the message and the class of the error
    only: not on the stack (which is logged, never sent), not on the
    request, not on the status the response had before, not on which
    gateway or logger it is. *)
Theorem handleErrors_response_depends_on_message_and_class
    (this this' : App) (lg lg' : LoggerInstance) (err err' : JsError)
    (req req' : Request) (s s' : HandlerState) :
  logger this = Some lg ->
  logger this' = Some lg' ->
  sent (response s) = None ->
  sent (response s') = None ->
  valid_status (match class err with
                | OrbError httpStatusCode => httpStatusCode
                | OtherError => 500%Z
                end) = true ->
  message err = message err' ->
  class err = class err' ->
  exists r r',
    handleErrors this err req s = Normal (tt, r) /\
    handleErrors this' err' req' s' = Normal (tt, r') /\
    response r = response r'.
Proof.
  intros Hlg Hlg' Hs Hs' Hv Hm Hc.
  eexists. eexists.
  split; [rewrite (handleErrors_with_logger this lg err req s Hlg), Hs, Hv;
          reflexivity|].
  split; [rewrite (handleErrors_with_logger this' lg' err' req' s' Hlg'), Hs',
            <- Hc, Hv; reflexivity|].
  cbn [response]. now rewrite Hm, Hc.
Qed.

Lemma handleErrors_response_depends_on_message_and_class_witness :
  exists r r',
    handleErrors (PrivateApp_new (Some {| logger_ref := 0 |}) {| messageBroker_ref := 1 |})
      {| message := "token not found"; stack := None; class := OrbError 404 |}
      {| req_method := POST; req_url := "/api/wallet" |}
      {| logged := []; response := {| statusCode := 200; sent := None |} |}
    = Normal (tt, r) /\
    handleErrors (PublicApp_new (Some {| logger_ref := 7 |}) {| messageBroker_ref := 1 |}
                    {| peerHandler_ref := 2 |})
      {| message := "token not found"; stack := Some "at tokens"; class := OrbError 404 |}
      {| req_method := GET; req_url := "/api/blocks" |}
      {| logged := []; response := {| statusCode := 201; sent := None |} |}
    = Normal (tt, r') /\
    response r = response r'.
Proof.
  apply (handleErrors_response_depends_on_message_and_class
           _ _ {| logger_ref := 0 |} {| logger_ref := 7 |}); reflexivity.
Defined.

(* ================================================================== *)
(** ** More on starting the server *)
(* ================================================================== *)

Lemma starts_cons p b ps this :
  starts ((p, b) :: ps) this = starts ps (fst (start p b this)).
Proof. reflexivity. Qed.

Lemma starts_app ps qs this :
  starts (ps ++ qs) this = starts qs (starts ps this).
Proof. apply fold_left_app. Qed.

Lemma server_start p b this :
  server (fst (start p b this))
  = server this ++ [server_set "port" p; server_listen p b].
Proof. unfold start. simpl. now rewrite <- app_assoc. Qed.

(** A view of the server that [set] and [listen] do not show in is the same
    after any starts. *)
Lemma starts_keep_view {A} (view : Server -> A) :
  (forall s p b, view (s ++ [server_set "port" p; server_listen p b]) = view s) ->
  forall ps this, view (server (starts ps this)) = view (server this).
Proof.
  intros Hview. induction ps as [|[p b] ps IH]; intros this; [reflexivity|].
  now rewrite starts_cons, IH, server_start, Hview.
Qed.

Lemma logger_starts ps this : logger (starts ps this) = logger this.
Proof.
  revert this. induction ps as [|[p b] ps IH]; intros this; [reflexivity|].
  now rewrite starts_cons, IH.
Qed.

Lemma options_starts ps this : options (starts ps this) = options this.
Proof.
  revert this. induction ps as [|[p b] ps IH]; intros this; [reflexivity|].
  now rewrite starts_cons, IH.
Qed.

Lemma bindings_app (s t : Server) : bindings (s ++ t) = bindings s ++ bindings t.
Proof.
  induction s as [|c s IH]; simpl; [reflexivity|].
  destruct (binding c); simpl; now rewrite IH.
Qed.

Lemma cors_policies_app (s t : Server) :
  cors_policies (s ++ t) = cors_policies s ++ cors_policies t.
Proof.
  induction s as [|c s IH]; simpl; [reflexivity|].
  destruct c as [m|? m|? m|? m|? ?|? ?]; try destruct m; simpl; now rewrite IH.
Qed.

Lemma listen_calls_starts ps this :
  listen_calls (server (starts ps this)) = listen_calls (server this) ++ ps.
Proof.
  revert this. induction ps as [|[p b] ps IH]; intros this.
  - simpl. now rewrite app_nil_r.
  - rewrite starts_cons, IH, server_start, listen_calls_app. simpl.
    now rewrite <- app_assoc.
Qed.

Lemma setting_other (name k : string) (v : Js.JsValue) (s : Server) :
  k <> name -> setting name (s ++ [server_set k v]) = setting name s.
Proof.
  intros Hk. induction s as [|c rest IH]; simpl.
  - apply String.eqb_neq in Hk. now rewrite Hk.
  - now rewrite IH.
Qed.

(** Both surfaces have the error translator and the preflight responder
    last, whatever the logger. *)
Lemma surfaces_error_handling_last logger messageBroker peerHandler :
  error_handling_last
    (middleware_list (server (PublicApp_new logger messageBroker peerHandler))) /\
  error_handling_last
    (middleware_list (server (PrivateApp_new logger messageBroker))).
Proof.
  split; destruct logger as [lg|]; cbv [PublicApp_new PrivateApp_new App_new];
    rewrite ?server_call; cbn [server options express app middleware_list filter
                                 is_registration];
    match goal with
    | |- error_handling_last ?l =>
        let n := eval cbv in (List.length l - 2) in
        change l with (firstn n l ++ skipn n l); cbn [firstn skipn];
        apply error_handling_last_intro
    end.
Qed.

(** X7 -- [start] registers, removes and reorders no handler: after any
    number of starts the middleware list, the route bindings, the CORS
    policies, the logger and the options of a gateway are what they were,
    so on both surfaces the error translator still follows every route and
    the preflight responder still comes last. *)
Theorem starts_keep_registrations
    (ps : list (Js.JsValue * string)) (this : App) :
  (middleware_list (server (starts ps this)) = middleware_list (server this) /\
   bindings (server (starts ps this)) = bindings (server this) /\
   cors_policies (server (starts ps this)) = cors_policies (server this) /\
   logger (starts ps this) = logger this /\
   options (starts ps this) = options this) /\
  forall lg messageBroker peerHandler,
    error_handling_last
      (middleware_list
         (server (starts ps (PublicApp_new lg messageBroker peerHandler)))) /\
    error_handling_last
      (middleware_list (server (starts ps (PrivateApp_new lg messageBroker)))).
Proof.
  assert (Hm : forall a, middleware_list (server (starts ps a))
                         = middleware_list (server a)).
  { apply (starts_keep_view middleware_list). intros s p b.
    unfold middleware_list. rewrite filter_app. apply app_nil_r. }
  split.
  - split; [apply Hm|]. split; [|split; [|split]].
    + apply (starts_keep_view bindings). intros s p b.
      rewrite bindings_app. apply app_nil_r.
    + apply (starts_keep_view cors_policies). intros s p b.
      rewrite cors_policies_app. apply app_nil_r.
    + apply logger_starts.
    + apply options_starts.
  - intros lg mb ph. rewrite !Hm. apply surfaces_error_handling_last.
Qed.

(** X8 -- when [start] is called several times the last call wins: the port
    field holds the number of the last port and the ["port"] setting the
    last port as given, while [listen] has been called once per start, in
    order, each time with the port and address of that start. *)
Theorem starts_last_wins
    (ps : list (Js.JsValue * string)) (p : Js.JsValue) (b : string) (this : App) :
  let after := starts (ps ++ [(p, b)]) this in
  port after = Some (Js.Number p) /\
  setting "port" (server after) = Some p /\
  listen_calls (server after) = listen_calls (server this) ++ ps ++ [(p, b)].
Proof.
  cbv zeta. split; [|split].
  - now rewrite starts_app.
  - rewrite starts_app. cbn [starts fold_left fst snd]. unfold start. simpl.
    now rewrite setting_then_listen, setting_last.
  - apply listen_calls_starts.
Qed.

(** X9 -- [start] touches no setting but ["port"]: every other setting reads
    after any number of starts as it read before. *)
Theorem starts_keep_other_settings
    (name : string) (ps : list (Js.JsValue * string)) (this : App) :
  name <> "port" ->
  setting name (server (starts ps this)) = setting name (server this).
Proof.
  intros Hname. apply (starts_keep_view (setting name)). intros s p b.
  change (s ++ [server_set "port" p; server_listen p b])
    with (s ++ [server_set "port" p] ++ [server_listen p b]).
  rewrite app_assoc, setting_then_listen.
  apply setting_other. congruence.
Qed.

(** X10 -- the promise of [start] after any events of the server: rejected
    with what [listen] threw when it threw; otherwise fulfilled when
    ['listening'] is among the events and pending when it is not, whatever
    ['error'] events there are and in whatever order the events come.  The
    gateway is the same after the events as before. *)
Theorem start_promise_after_events
    (p : Js.JsValue) (bind : string) (this : App) (evs : list ServerEvent) :
  let w := start p bind this in
  snd (emits evs w)
  = match listen_throws p bind with
    | Some thrown => Js.Rejected thrown
    | None => if existsb is_listening evs then Js.Fulfilled else Js.Pending
    end /\
  fst (emits evs w) = fst w.
Proof.
  cbv zeta. split.
  - unfold start. destruct (listen_throws p bind) as [thrown|].
    + now rewrite settled_stays.
    + generalize (fst (start p bind this)). intros a. cbn [fst snd].
      induction evs as [|[|e] evs IH]; [reflexivity| |exact IH].
      rewrite emits_cons. cbn [existsb is_listening orb emit listen_callback fst snd].
      now rewrite settled_stays.
  - generalize (start p bind this).
    induction evs as [|ev evs IH]; intros w; [reflexivity|].
    rewrite emits_cons, IH. now destruct ev.
Qed.

(* ================================================================== *)
(** ** Ports given as decimal numerals *)
(* ================================================================== *)

Ltac eval_digitValue :=
  repeat match goal with
         | |- context [Js.digitValue ?r ?c] =>
             let v := eval vm_compute in (Js.digitValue r c) in
             change (Js.digitValue r c) with v
         end.

Lemma digits_numeral (d : Decimal.uint) (acc : N) (count : nat) :
  Js.digits 10 acc count
    (list_ascii_of_string (DecimalString.NilEmpty.string_of_uint d))
  = (uint_value d acc, count + Decimal.nb_digits d, []).
Proof.
  revert acc count.
  induction d; intros acc count;
    cbn [DecimalString.NilEmpty.string_of_uint list_ascii_of_string Js.digits
         uint_value Decimal.nb_digits];
    eval_digitValue; cbv iota;
    rewrite ?IHd, ?Nat.add_0_r, ?Nat.add_succ_r; reflexivity.
Qed.

Lemma uint_value_acc (d : Decimal.uint) (acc : positive) :
  N.pos (Pos.of_uint_acc d acc) = uint_value d (N.pos acc).
Proof.
  revert acc. induction d; intros acc; cbn [Pos.of_uint_acc uint_value];
    rewrite ?IHd; try reflexivity; f_equal; lia.
Qed.

Lemma uint_value_of_uint (d : Decimal.uint) : uint_value d 0 = N.of_uint d.
Proof.
  unfold N.of_uint.
  induction d; cbn [Pos.of_uint uint_value]; rewrite ?uint_value_acc;
    try reflexivity; try exact IHd.
Qed.

Lemma numeral_no_space (d : Decimal.uint) :
  Forall (fun c => Js.isStrWhiteSpaceChar c = false)
    (list_ascii_of_string (DecimalString.NilEmpty.string_of_uint d)).
Proof.
  induction d; cbn [DecimalString.NilEmpty.string_of_uint list_ascii_of_string];
    constructor; trivial.
Qed.

Lemma trimStart_no_space (l : list ascii) :
  Forall (fun c => Js.isStrWhiteSpaceChar c = false) l -> Js.trimStart l = l.
Proof.
  intros H. destruct H as [|c l Hc _]; [reflexivity|].
  cbn [Js.trimStart]. now rewrite Hc.
Qed.

Lemma trim_no_space (l : list ascii) :
  Forall (fun c => Js.isStrWhiteSpaceChar c = false) l -> Js.trim l = l.
Proof.
  intros H. unfold Js.trim.
  rewrite (trimStart_no_space l H), trimStart_no_space.
  - apply rev_involutive.
  - now apply Forall_rev.
Qed.

Lemma numeral_not_nonDecimal (d : Decimal.uint) :
  Js.nonDecimalIntegerLiteral
    (list_ascii_of_string (DecimalString.NilEmpty.string_of_uint d)) = None.
Proof.
  destruct d as [|d|d|d|d|d|d|d|d|d|d]; try reflexivity;
    destruct d; reflexivity.
Qed.

(** A decimal numeral is a numeric literal, and stands for its number. *)
Lemma stringNumericLiteral_numeral (d : Decimal.uint) :
  d <> Decimal.Nil ->
  Js.stringNumericLiteral (DecimalString.NilEmpty.string_of_uint d)
  = Some (Js.RoundMV false (N.of_uint d) 0).
Proof.
  intros Hd. unfold Js.stringNumericLiteral.
  rewrite (trim_no_space _ (numeral_no_space d)).
  assert (Hs : Js.strNumericLiteral
                 (list_ascii_of_string (DecimalString.NilEmpty.string_of_uint d))
               = Some (Js.RoundMV false (N.of_uint d) 0)).
  { unfold Js.strNumericLiteral. rewrite numeral_not_nonDecimal.
    assert (Hu : Js.strUnsignedDecimalLiteral false
                   (list_ascii_of_string (DecimalString.NilEmpty.string_of_uint d))
                 = Some (Js.RoundMV false (N.of_uint d) 0)).
    { unfold Js.strUnsignedDecimalLiteral.
      destruct (list_eq_dec ascii_dec _ _) as [E|_].
      - exfalso. destruct d; try contradiction; cbn in E; discriminate E.
      - rewrite digits_numeral, uint_value_of_uint.
        destruct d; try contradiction; reflexivity. }
    destruct d; try contradiction; exact Hu. }
  destruct d; try contradiction; exact Hs.
Qed.

Lemma to_uint_nonnil (n : N) : N.to_uint n <> Decimal.Nil.
Proof.
  destruct n as [|p]; [discriminate|].
  apply DecimalPos.Unsigned.to_uint_nonnil.
Qed.

(** X11 -- a port given as the decimal numeral of [n] is stored in the port
    field as the number [n] (never NaN), while the ["port"] setting and
    [listen] get the numeral as it was given, still a string. *)
Theorem start_decimal_port (n : N) (bind : string) (this : App) :
  let after := fst (start (Js.VStr (decimal n)) bind this) in
  port after = Some (Js.RoundMV false n 0) /\
  setting "port" (server after) = Some (Js.VStr (decimal n)) /\
  listen_calls (server after)
  = listen_calls (server this) ++ [(Js.VStr (decimal n), bind)].
Proof.
  cbv zeta. split; [|split].
  - unfold start. cbn [fst port set_port call Js.Number]. f_equal.
    unfold Js.StringToNumber, decimal.
    rewrite (stringNumericLiteral_numeral _ (to_uint_nonnil n)).
    now rewrite DecimalN.Unsigned.of_to.
  - rewrite server_start.
    change (server this ++ [server_set "port" (Js.VStr (decimal n));
                            server_listen (Js.VStr (decimal n)) bind])
      with (server this ++ [server_set "port" (Js.VStr (decimal n))]
                        ++ [server_listen (Js.VStr (decimal n)) bind]).
    now rewrite app_assoc, setting_then_listen, setting_last.
  - rewrite server_start, listen_calls_app. simpl. reflexivity.
Qed.

(** X12 -- with a string port the port field is NaN after [start] exactly
    when the string is not a numeric literal; with a number port it is that
    number, whatever it is. *)
Theorem start_port_NaN_iff (bind : string) (this : App) :
  (forall s, port (fst (start (Js.VStr s) bind this)) = Some Js.NaN
             <-> Js.stringNumericLiteral s = None) /\
  (forall n, port (fst (start (Js.VNum n) bind this)) = Some n).
Proof.
  split; [|reflexivity].
  intros s. rewrite <- StringToNumber_NaN_iff.
  unfold start. cbn [fst port set_port call Js.Number].
  split; [now intros [= ->] | now intros ->].
Qed.

(* ================================================================== *)
(** ** More on the two surfaces *)
(* ================================================================== *)

Ltac both_surfaces :=
  match goal with
  | lg : option LoggerInstance |- _ => destruct lg
  end.

(** X13 -- access lines and translated errors go to the same logger: the
    stream of the access logger of a surface holds the logger the surface
    was built with, so every call [write] makes is an [info] call on the
    logger that [handleErrors] uses; a surface without a logger has no
    access logger. *)
Theorem access_log_on_gateway_logger
    (lg : option LoggerInstance) (messageBroker : MessageBroker)
    (peerHandler : PeerHandler) (message : string) :
  let public := PublicApp_new lg messageBroker peerHandler in
  let private := PrivateApp_new lg messageBroker in
  (logger public = lg /\ logger private = lg) /\
  (map (fun stream => Some (stream_logger stream)) (log_streams (server public))
   = match lg with Some l => [Some l] | None => [] end /\
   log_streams (server private) = log_streams (server public)) /\
  Forall (fun c => Some (target c) = logger public /\ level c = info)
         (flat_map (fun stream => write stream message) (log_streams (server public))).
Proof.
  cbv zeta. split; [both_surfaces; split; reflexivity|].
  split; [both_surfaces; split; reflexivity|].
  destruct lg as [l|]; [|constructor].
  change (log_streams (server (PublicApp_new (Some l) messageBroker peerHandler)))
    with [{| stream_logger := l |}].
  cbn [flat_map]. rewrite app_nil_r, write_as_info_calls.
  apply Forall_forall. intros c Hc. apply in_map_iff in Hc.
  destruct Hc as (msg & <- & _). split; reflexivity.
Qed.

(** X14 -- the whole middleware list of a surface: the pipeline of the base
    constructor, then the [get] and [post] routes, then the error arrow,
    then the preflight responder.  The error arrow is the only
    error-handling registration, and the body parsers and the other
    pipeline entries stand before it like the routes. *)
Theorem surfaces_middleware_list
    (lg : option LoggerInstance) (messageBroker : MessageBroker)
    (peerHandler : PeerHandler) :
  let public := server (PublicApp_new lg messageBroker peerHandler) in
  let private := server (PrivateApp_new lg messageBroker) in
  let last_two := [server_use errorArrow; server_options "*" (cors App_options)] in
  middleware_list public
  = server (App_new lg) ++ filter is_resource_route public ++ last_two /\
  middleware_list private
  = server (App_new lg) ++ filter is_resource_route private ++ last_two /\
  filter is_error_handler public = [server_use errorArrow] /\
  filter is_error_handler private = [server_use errorArrow] /\
  existsb is_resource_route (server (App_new lg)) = false.
Proof.
  cbv zeta. both_surfaces; repeat split.
Qed.

Lemma not_in_keys (k : Method * string) (keys : list (Method * string)) :
  forallb (key_differs k) keys = true -> ~ In k keys.
Proof.
  intros H Hin. rewrite forallb_forall in H. specialize (H k Hin).
  unfold key_differs in H. rewrite String.eqb_refl in H.
  destruct k as [[] path]; discriminate H.
Qed.

Lemma public_route_keys lg messageBroker peerHandler :
  route_keys (server (PublicApp_new lg messageBroker peerHandler))
  = map fst spec_public_route_table.
Proof. destruct lg; reflexivity. Qed.

Lemma private_route_keys lg messageBroker :
  route_keys (server (PrivateApp_new lg messageBroker))
  = [ (GET, "/api/stop"); (GET, "/api/status"); (POST, "/api/wallet");
      (GET, "/api/wallet/balances/:tokenHash");
      (GET, "/api/wallet/balances/:betaPublicKey/:tokenHash");
      (POST, "/api/tokens"); (GET, "/api/tokens");
      (POST, "/api/transactions"); (GET, "/api/transactions");
      (POST, "/api/transactions/sign");
      (GET, "/api/options"); (POST, "/api/options/exercise") ].
Proof. destruct lg; reflexivity. Qed.

Ltac distinct_keys :=
  repeat (apply NoDup_cons; [apply not_in_keys; vm_compute; reflexivity|]);
  apply NoDup_nil.

(** X15 -- no surface binds the same method and path twice, so no binding
    is hidden behind an earlier one; the public surface takes all its
    closures from the public controller module and the private surface
    from the private one. *)
Theorem surfaces_routes_distinct
    (lg : option LoggerInstance) (messageBroker : MessageBroker)
    (peerHandler : PeerHandler) :
  let public := server (PublicApp_new lg messageBroker peerHandler) in
  let private := server (PrivateApp_new lg messageBroker) in
  NoDup (route_keys public) /\
  NoDup (route_keys private) /\
  forallb (fun c => match controller_of c with
                    | Some mf => is_public mf
                    | None => true
                    end) public = true /\
  forallb (fun c => match controller_of c with
                    | Some mf => negb (is_public mf)
                    | None => true
                    end) private = true.
Proof.
  cbv zeta. split; [|split; [|split]].
  - rewrite public_route_keys. unfold spec_public_route_table.
    cbn [map fst]. distinct_keys.
  - rewrite private_route_keys. distinct_keys.
  - destruct lg; reflexivity.
  - destruct lg; reflexivity.
Qed.

Lemma handleErrors_returns_iff (this : App) (lg : LoggerInstance)
    (err : JsError) (req : Request) (s : HandlerState) :
  logger this = Some lg ->
  let code := match class err with
              | OrbError httpStatusCode => httpStatusCode
              | OtherError => 500%Z
              end in
  ((exists s', handleErrors this err req s = Normal (tt, s'))
   <-> sent (response s) = None /\ valid_status code = true) /\
  (forall s', handleErrors this err req s = Normal (tt, s') ->
              response s' = {| statusCode := code;
                               sent := Some [("error", message err)] |}).
Proof.
  intros Hlg code. rewrite (handleErrors_with_logger this lg err req s Hlg).
  fold code. destruct (sent (response s)) as [body|].
  - split; [split|]; [intros [s' H]; discriminate H | intros [H _]; discriminate H
                     | intros s' H; discriminate H].
  - destruct (valid_status code).
    + split; [split; eauto|]. intros s' H. now injection H as <-.
    + split; [split|]; [intros [s' H]; discriminate H | intros [_ H]; discriminate H
                       | intros s' H; discriminate H].
Qed.

(** X16 -- on a surface built with a logger, also after any number of
    starts, the translator returns exactly when the response has not been
    sent yet and the status of the error can be written; when it returns,
    the response has that status and the body [{ error: message }]. *)
Theorem handleErrors_answers_with_logger
    (lg : LoggerInstance) (messageBroker : MessageBroker) (peerHandler : PeerHandler)
    (ps : list (Js.JsValue * string))
    (err : JsError) (req : Request) (s : HandlerState) :
  let code := match class err with
              | OrbError httpStatusCode => httpStatusCode
              | OtherError => 500%Z
              end in
  Forall (fun surface =>
            ((exists s', handleErrors surface err req s = Normal (tt, s'))
             <-> sent (response s) = None /\ valid_status code = true) /\
            (forall s', handleErrors surface err req s = Normal (tt, s') ->
                        response s' = {| statusCode := code;
                                         sent := Some [("error", message err)] |}))
         [starts ps (PublicApp_new (Some lg) messageBroker peerHandler);
          starts ps (PrivateApp_new (Some lg) messageBroker)].
Proof.
  cbv zeta.
  apply Forall_cons; [|apply Forall_cons; [|apply Forall_nil]];
    apply (handleErrors_returns_iff _ lg); now rewrite logger_starts.
Qed.

End Server.

(* ================================================================== *)
(** ** Instances *)
(* ================================================================== *)

(** A port that is not numeric, on a public gateway. *)
Lemma start_sets_port_before_listen_witness :
  port (fst (start accepts_every_port (Js.VStr "abc") "0.0.0.0"
               (PublicApp_new None {| messageBroker_ref := 1 |}
                                   {| peerHandler_ref := 2 |})))
  = Some Js.NaN.
Proof.
  destruct (start_sets_port_before_listen accepts_every_port (Js.VStr "abc") "0.0.0.0"
              (PublicApp_new None {| messageBroker_ref := 1 |} {| peerHandler_ref := 2 |}))
    as (_ & _ & _ & _ & H).
  apply (H "abc"); reflexivity.
Defined.

(** Two starts do not touch a setting made before them. *)
Lemma starts_keep_other_settings_witness :
  setting "env"
    (server (starts accepts_every_port
               [(Js.VStr "8080", "0.0.0.0"); (Js.VNum (Js.RoundMV false 3000 0), "::")]
               (call (server_set "env" (Js.VStr "production")) (App_new None))))
  = setting "env" (server (call (server_set "env" (Js.VStr "production")) (App_new None))).
Proof.
  apply (starts_keep_other_settings accepts_every_port "env"). discriminate.
Defined.
